(** * errcheck: the detection engine of [errcheck/errcheck.go]

    A shallow embedding of the checker that reports call expressions whose
    error result is discarded and type assertions whose success flag is not
    read, together with the properties of the scan established on it.

    The frontend ([go/ast], [go/token], [go/types], [x/tools/go/packages]),
    the file system and the Go runtime are not part of the program: their
    answers are data of the model ([types.Info], [packages.Package], [World]).
    Go's [int] is modelled as [Z]; a run-time panic (index out of range) is
    the [None] of the option monad. *)

From Stdlib Require Import ZArith String Ascii List Lia Permutation Sorted.
From stdpp Require Import base option list gmap strings sorting.

Set Warnings "-register-all".

Local Open Scope Z_scope.
Local Open Scope string_scope.

(** ** go/token *)

Module token.

(** [token.Pos]: a compact position inside a file set; 0 is [NoPos]. *)
Definition Pos := Z.

(** [token.Position]: [Line] and [Column] start at 1; [Line = 0] marks an
    invalid position, [Column = 0] an unknown column (after a line
    directive without column). *)
Record Position := {
  Filename : string;
  Offset : Z;
  Line : Z;
  Column : Z
}.

#[global] Instance Position_eq_dec : EqDecision Position.
Proof. solve_decision. Defined.

End token.

(** ** regexp: the fragment of RE2 syntax used by the two patterns *)

Module regexp.

Inductive re :=
| Empty                 (* no string *)
| Eps                   (* the empty string *)
| Byte (a : ascii)      (* a literal byte *)
| AnyCharNotNL          (* [.] without the [s] flag *)
| AnyChar               (* any byte: the padding of an unanchored side *)
| Cat (r s : re)
| Alt (r s : re)
| Star (r : re).

Fixpoint nullable (r : re) : bool :=
  match r with
  | Empty | Byte _ | AnyCharNotNL | AnyChar => false
  | Eps | Star _ => true
  | Cat r s => nullable r && nullable s
  | Alt r s => nullable r || nullable s
  end.

Definition newline : ascii := "010"%char.

(** Brzozowski derivative with respect to one byte. *)
Fixpoint deriv (a : ascii) (r : re) : re :=
  match r with
  | Empty | Eps => Empty
  | Byte b => if Ascii.eqb a b then Eps else Empty
  | AnyCharNotNL => if Ascii.eqb a newline then Empty else Eps
  | AnyChar => Eps
  | Cat r s =>
      if nullable r then Alt (Cat (deriv a r) s) (deriv a s)
      else Cat (deriv a r) s
  | Alt r s => Alt (deriv a r) (deriv a s)
  | Star r => Cat (deriv a r) (Star r)
  end.

Fixpoint matches (r : re) (s : string) : bool :=
  match s with
  | EmptyString => nullable r
  | String a s' => matches (deriv a r) s'
  end.

(** The literal [s]. *)
Fixpoint Lit (s : string) : re :=
  match s with
  | EmptyString => Eps
  | String a s' => Cat (Byte a) (Lit s')
  end.

(** A compiled pattern: [^] and [$] (no [m] flag: begin and end of text)
    are kept apart from the body. *)
Record Regexp := {
  beginText : bool;
  body : re;
  endText : bool
}.

(** [re.MatchString(s)]: some substring of [s] matches; an anchored side
    must sit at the end of the text. *)
Definition MatchString (rx : Regexp) (s : string) : bool :=
  matches
    (Cat (if beginText rx then Eps else Star AnyChar)
         (Cat (body rx) (if endText rx then Eps else Star AnyChar)))
    s.

(** The strings a body denotes. *)
Inductive lang : re -> string -> Prop :=
| lang_Eps : lang Eps ""
| lang_Byte a : lang (Byte a) (String a "")
| lang_AnyCharNotNL a : a <> newline -> lang AnyCharNotNL (String a "")
| lang_AnyChar a : lang AnyChar (String a "")
| lang_Cat r s x y : lang r x -> lang s y -> lang (Cat r s) (x +:+ y)
| lang_Alt_l r s x : lang r x -> lang (Alt r s) x
| lang_Alt_r r s x : lang s x -> lang (Alt r s) x
| lang_Star_nil r : lang (Star r) ""
| lang_Star_cons r x y : lang r x -> lang (Star r) y -> lang (Star r) (x +:+ y).

End regexp.

(** ** go/ast: the node kinds the visitor distinguishes *)

Module ast.

Record Ident := { NamePos : token.Pos; Name : string }.

(** Every node kind that [Visit] does not inspect is an [Other] node: it
    has a position and children, walked in order. *)
Inductive Node :=
| Id (id : Ident)
| SelectorExpr (X : Node) (Sel : Ident)
| Call (call : CallExpr)
| TypeAssertExpr (X : Node) (Type_ : option Node)   (* [None]: [x.(type)] *)
| ExprStmt (X : Node)
| GoStmt (Go : token.Pos) (call : CallExpr)
| DeferStmt (Defer : token.Pos) (call : CallExpr)
| AssignStmt (Lhs Rhs : list Node)
| Other (pos : token.Pos) (children : list Node)
with CallExpr :=
| mkCallExpr (Fun : Node) (Lparen : token.Pos) (Args : list Node).

Definition Fun (c : CallExpr) : Node := let 'mkCallExpr f _ _ := c in f.
Definition Lparen (c : CallExpr) : token.Pos := let 'mkCallExpr _ p _ := c in p.
Definition Args (c : CallExpr) : list Node := let 'mkCallExpr _ _ a := c in a.

(** [n.Pos()]. An assignment without targets (never produced by the
    parser) has no position here; Go would panic. *)
Fixpoint Pos (n : Node) : token.Pos :=
  match n with
  | Id id => NamePos id
  | SelectorExpr X _ => Pos X
  | Call (mkCallExpr f _ _) => Pos f
  | TypeAssertExpr X _ => Pos X
  | ExprStmt X => Pos X
  | GoStmt go _ => go
  | DeferStmt defer _ => defer
  | AssignStmt Lhs _ => match Lhs with x :: _ => Pos x | [] => 0 end
  | Other pos _ => pos
  end.

Record Comment := { Slash : token.Pos; Text : string }.
Record CommentGroup := { List : list Comment }.

Record File := {
  FileName : Ident;
  Decls : list Node;
  Comments : list CommentGroup
}.

End ast.

(** ** go/types: what the checker asks the type checker *)

Module types.

(** The dynamic kinds of [types.Type] that [errorsByArg] switches on. *)
Inductive Typ :=
| Named (name : string)
| Pointer (elem : Typ)
| Tuple (vars : list Typ)
| OtherType (descr : string).  (* basic, interface, struct, ... *)

Record Package := { Path : string; Name : string }.

Inductive Object :=
| Func (pkg : option Package) (name fullName : string)
| Var (pkg : option Package) (name : string)
| Builtin (name : string)
| OtherObject (pkg : option Package) (name : string).

Definition Pkg (o : Object) : option Package :=
  match o with
  | Func p _ _ | Var p _ | OtherObject p _ => p
  | Builtin _ => None
  end.

Definition ObjName (o : Object) : string :=
  match o with
  | Func _ n _ | Var _ n | Builtin n | OtherObject _ n => n
  end.

Record Selection := { Recv : Typ; Obj : Object; Indirect : bool }.

(** [types.Info]: the maps of the type checker, keyed by syntax. A missing
    key is [None] (Go: the zero value, a nil type or object). *)
Record Info := {
  Types : ast.Node -> option Typ;          (* [Types[e].Type] *)
  TypeOf : ast.Node -> option Typ;
  ObjectOf : ast.Ident -> option Object;
  Uses : ast.Ident -> option Object;
  Selections : ast.Node -> ast.Ident -> option Selection  (* key: [X.Sel] *)
}.

End types.

(** ** golang.org/x/tools/go/packages *)

Module packages.

Record Package := {
  ID : string;
  Errors : list string;                        (* load diagnostics *)
  Types_Path : string;
  Fset_Position : token.Pos -> token.Position; (* [pkg.Fset.Position] *)
  Syntax : list ast.File;
  TypesInfo : types.Info
}.

(** [Mode] is the constant [LoadAllSyntax]. *)
Record Config := { Tests : bool; BuildFlags : list string }.

End packages.

(** ** The program's data *)

(** [UncheckedError]: the position of an unchecked error return. *)
Record UncheckedError := {
  Pos : token.Position;
  Line : string;
  FuncName : string
}.

#[global] Instance UncheckedError_eq_dec : EqDecision UncheckedError.
Proof. solve_decision. Defined.

(** Go's [error] values that [CheckPackages] can return. [UncheckedErrors]
    carries the list [u.Errors]. *)
Inductive error :=
| ErrNoGoFiles            (* errors.New("package contains no go source files") *)
| LoadError (msg : string)                        (* the error of [c.load] *)
| ErrorsWhileLoading (id : string) (errs : list string)  (* the [fmt.Errorf] *)
| UncheckedErrors (Errors : list UncheckedError).

(** [Exclusions] and [Checker]. *)
Record Exclusions := {
  Packages : list string;
  Symbols : list string;
  TestFiles : bool;
  GeneratedFiles : bool;
  BlankAssignments : bool;
  TypeAssertions : bool
}.

Record Checker := {
  Exclusions_ : Exclusions;
  Tags : list string;
  Verbose : bool
}.

(** Everything outside this source file that a scan consults. *)
Record World := {
  (* the variable [loadPackages], by default [packages.Load] *)
  loadPackages : packages.Config -> list string -> list packages.Package + string;
  (* [exec.Command("go", "env", "GOMOD").Output()]; [None] on error *)
  go_env_GOMOD : option string;
  (* [runtime.NumCPU()] *)
  NumCPU : nat;
  (* the lines of a file as [bufio.Scanner] splits them; no lines when the
     file cannot be opened *)
  fileLines : string -> list string;
  (* [strings.TrimSpace] *)
  TrimSpace : string -> string;
  (* [types.Implements(t, errorType)] *)
  Implements_errorType : types.Typ -> bool;
  (* [t.String()] *)
  TypeString : types.Typ -> string;
  (* [walkThroughEmbeddedInterfaces], declared in another file of the package *)
  walkThroughEmbeddedInterfaces : types.Selection -> option (list types.Typ);
  (* [fmtTags], declared in another file of the package *)
  fmtTags : list string -> string;
  (* [sort.Sort] on a slice with the given [Less] *)
  sort_Sort : (UncheckedError -> UncheckedError -> bool) ->
              list UncheckedError -> list UncheckedError
}.

(** [visitor] implements the errcheck algorithm. *)
Record visitor := {
  pkg : packages.Package;
  ignore : gmap string regexp.Regexp;
  blank : bool;
  asserts : bool;
  lines : gmap string (list string);
  exclude : gmap string bool;
  go111module : bool;
  errors : list UncheckedError
}.

Definition set_errors (v : visitor) (lines' : gmap string (list string))
    (errors' : list UncheckedError) : visitor :=
  {| pkg := pkg v; ignore := ignore v; blank := blank v; asserts := asserts v;
     lines := lines'; exclude := exclude v; go111module := go111module v;
     errors := errors' |}.

(** ** Strings *)

(** [strings.LastIndex(s, sep)]: the byte index of the last occurrence of
    [sep] in [s], or -1. [i] is the index of the head of [s]. *)
Fixpoint LastIndex_from (i : Z) (s sep : string) : Z :=
  match s with
  | EmptyString => if String.prefix sep s then i else -1
  | String _ s' =>
      let r := LastIndex_from (i + 1) s' sep in
      if (r =? -1)%Z then (if String.prefix sep s then i else -1) else r
  end.

Definition LastIndex (s sep : string) : Z := LastIndex_from 0 s sep.

(** [s[n:]] *)
Fixpoint slice_from (n : nat) (s : string) : string :=
  match n, s with
  | O, _ => s
  | S n', String _ s' => slice_from n' s'
  | S _, EmptyString => EmptyString
  end.

(** [nonVendoredPkgPath] returns the unvendored version of the package path
    and whether the path was vendored. *)
Definition nonVendoredPkgPath (pkgPath : string) : string * bool :=
  let lastVendorIndex := LastIndex pkgPath "/vendor/" in
  if (lastVendorIndex =? -1)%Z then (pkgPath, false)
  else (slice_from (Z.to_nat (lastVendorIndex + Z.of_nat (String.length "/vendor/"))) pkgPath,
        true).

(** ** The compiled patterns *)

(** [regexp.MustCompile("^// Code generated .* DO NOT EDIT\\.$")] *)
Definition generatedCodeRegexp : regexp.Regexp :=
  {| regexp.beginText := true;
     regexp.body :=
       regexp.Cat (regexp.Lit "// Code generated ")
         (regexp.Cat (regexp.Star regexp.AnyCharNotNL)
                     (regexp.Lit " DO NOT EDIT."));
     regexp.endText := true |}.

(** [regexp.MustCompile(".*")] *)
Definition dotStar : regexp.Regexp :=
  {| regexp.beginText := false;
     regexp.body := regexp.Star regexp.AnyCharNotNL;
     regexp.endText := false |}.

(** ** The visitor *)

Section Visitor.

Variable W : World.

Definition info (v : visitor) : types.Info := packages.TypesInfo (pkg v).

(** [isErrorType] *)
Definition isErrorType (t : types.Typ) : bool := Implements_errorType W t.

(** [selectorAndFunc] tries to get the selector and function from a call
    expression; [None] is the source's final [false]. *)
Definition selectorAndFunc (v : visitor) (call : ast.CallExpr)
    : option (ast.Node * ast.Ident * types.Object) :=
  match ast.Fun call with
  | ast.SelectorExpr X Sel =>
      match types.ObjectOf (info v) Sel with
      | Some (types.Func p n fn) => Some (X, Sel, types.Func p n fn)
      | _ => None
      end
  | _ => None
  end.

(** [fn.FullName()] and [fn.Name()] of a [*types.Func] *)
Definition Func_FullName (fn : types.Object) : string :=
  match fn with types.Func _ _ full => full | _ => "" end.

(** [fullName]: the qualified name of the called function when it is the
    result of a selector, else the empty string. *)
Definition fullName (v : visitor) (call : ast.CallExpr) : string :=
  match selectorAndFunc v call with
  | None => ""
  | Some (_, _, fn) => Func_FullName fn
  end.

(** [namesForExcludeCheck] *)
Definition namesForExcludeCheck (v : visitor) (call : ast.CallExpr) : list string :=
  match selectorAndFunc v call with
  | None => []
  | Some (X, Sel, fn) =>
      let name := fullName v call in
      if String.eqb name "" then []
      else
        match types.Selections (info v) X Sel with
        | None => [name]
        | Some selection =>
            match walkThroughEmbeddedInterfaces W selection with
            | None => [name]
            | Some ts =>
                map (fun t => "(" +:+ TypeString W t +:+ ")." +:+ types.ObjName fn) ts
            end
        end
  end.

(** [argName] *)
Definition argName (v : visitor) (expr : ast.Node) : string :=
  let byType :=
    match types.TypeOf (info v) expr with
    | None => ""
    | Some t => TypeString W t
    end in
  match expr with
  | ast.SelectorExpr _ sel =>
      match types.ObjectOf (info v) sel with
      | Some (types.Var (Some p) name) =>
          if String.eqb (types.Name p) "os"
             && (String.eqb name "Stderr" || String.eqb name "Stdout")
          then "os." +:+ name
          else byType
      | _ => byType
      end
  | _ => byType
  end.

(** [m[key]] on a [map[string]bool] *)
Definition map_bool (m : gmap string bool) (key : string) : bool :=
  default false (m !! key).

(** [excludeCall] *)
Definition excludeCall (v : visitor) (call : ast.CallExpr) : bool :=
  let arg0 :=
    match ast.Args call with
    | a :: _ => argName v a
    | [] => ""
    end in
  existsb
    (fun name =>
       map_bool (exclude v) name
       || (negb (String.eqb arg0 "")
           && map_bool (exclude v) (name +:+ "(" +:+ arg0 +:+ ")")))
    (namesForExcludeCheck v call).

(** [ignoreCall] *)
Definition ignoreCall (v : visitor) (call : ast.CallExpr) : bool :=
  if excludeCall v call then true
  else
    let id :=
      match ast.Fun call with
      | ast.Id exp => Some exp
      | ast.SelectorExpr _ sel => Some sel
      | _ => None
      end in
    match id with
    | None => false
    | Some id =>
        let byPackage :=
          match types.Uses (info v) id with
          | Some obj =>
              match types.Pkg obj with
              | Some p =>
                  match ignore v !! types.Path p with
                  | Some re => regexp.MatchString re (ast.Name id)
                  | None =>
                      if negb (go111module v) then
                        match nonVendoredPkgPath (types.Path p) with
                        | (nonVendoredPkg, true) =>
                            match ignore v !! nonVendoredPkg with
                            | Some re => regexp.MatchString re (ast.Name id)
                            | None => false
                            end
                        | (_, false) => false
                        end
                      else false
                  end
              | None => false
              end
          | None => false
          end in
        match ignore v !! "" with
        | Some re =>
            if regexp.MatchString re (ast.Name id) then true else byPackage
        | None => byPackage
        end
    end.

(** [errorsByArg] returns a slice [s] with one entry per result of the
    call; [s[i]] tells whether result [i] is an error type. *)
Definition errorsByArg (v : visitor) (call : ast.CallExpr) : list bool :=
  match types.Types (info v) (ast.Call call) with
  | Some (types.Named n) => [isErrorType (types.Named n)]
  | Some (types.Pointer e) => [isErrorType (types.Pointer e)]
  | Some (types.Tuple ts) =>
      map (fun et =>
             match et with
             | types.Named _ | types.Pointer _ => isErrorType et
             | _ => false
             end) ts
  | _ => [false]
  end.

(** [isRecover]: a call to the built-in [recover()] *)
Definition isRecover (v : visitor) (call : ast.CallExpr) : bool :=
  match ast.Fun call with
  | ast.Id fun_ =>
      match types.Uses (info v) fun_ with
      | Some (types.Builtin _) => String.eqb (ast.Name fun_) "recover"
      | _ => false
      end
  | _ => false
  end.

(** [callReturnsError] *)
Definition callReturnsError (v : visitor) (call : ast.CallExpr) : bool :=
  if isRecover v call then true
  else existsb (fun isError => isError) (errorsByArg v call).

(** [readfile] *)
Definition readfile (filename : string) : list string := fileLines W filename.

(** The text of the line reported for [pos]: ["??"] when the file has no
    such line, a panic ([None]) on the index -1 of an invalid position. *)
Definition lineText (lines_ : list string) (pos : token.Position) : option string :=
  if (token.Line pos - 1 <? Z.of_nat (length lines_))%Z then
    if (token.Line pos - 1 <? 0)%Z then None
    else TrimSpace W <$> lines_ !! Z.to_nat (token.Line pos - 1)
  else Some "??".

(** [addErrorAtPosition]; [call] is [None] for the source's [nil]. *)
Definition addErrorAtPosition (v : visitor) (position : token.Pos)
    (call : option ast.CallExpr) : option visitor :=
  let pos := packages.Fset_Position (pkg v) position in
  let '(lines_, cache) :=
    match lines v !! token.Filename pos with
    | Some l => (l, lines v)
    | None =>
        let l := readfile (token.Filename pos) in
        (l, <[token.Filename pos := l]> (lines v))
    end in
  line ← lineText lines_ pos;
  let name :=
    match call with
    | Some call => fullName v call
    | None => ""
    end in
  Some (set_errors v cache
          (errors v ++ [{| Pos := pos; Line := line; FuncName := name |}])).

(** The statement rule shared by expression, [go] and [defer] statements. *)
Definition visitCallStmt (v : visitor) (call : ast.CallExpr) : option visitor :=
  if negb (ignoreCall v call) && callReturnsError v call
  then addErrorAtPosition v (ast.Lparen call) (Some call)
  else Some v.

(** The body of the loop over [stmt.Lhs] of an assignment whose single
    right-hand side is [call]: target [lhs_i] at index [i]. [isError[i]]
    is read only for a blank target of a call other than [recover]. *)
Definition visitAssignTarget (v : visitor) (call : ast.CallExpr)
    (isError : list bool) (i : nat) (lhs_i : ast.Node) : option visitor :=
  match lhs_i with
  | ast.Id id =>
      if String.eqb (ast.Name id) "_" then
        if isRecover v call then
          addErrorAtPosition v (ast.NamePos id) (Some call)
        else
          isError_i ← isError !! i;
          if (isError_i : bool)
          then addErrorAtPosition v (ast.NamePos id) (Some call)
          else Some v
      else Some v
  | _ => Some v
  end.

(** The loop; [i] is the index of the head of [lhs]. *)
Fixpoint visitAssignCall (v : visitor) (call : ast.CallExpr)
    (isError : list bool) (i : nat) (lhs : list ast.Node) : option visitor :=
  match lhs with
  | [] => Some v
  | l :: rest =>
      v' ← visitAssignTarget v call isError i l;
      visitAssignCall v' call isError (S i) rest
  end.

(** The body of the loop over the targets of an assignment with several
    right-hand sides: target [lhs_i] and the term [stmt.Rhs[i]], which is
    [None] when [i] is out of range. The term is read only for an
    identifier target. *)
Definition visitAssignPair (v : visitor) (lhs_i : ast.Node)
    (rhs_i : option ast.Node) : option visitor :=
  match lhs_i with
  | ast.Id id =>
      rhs ← rhs_i;
      match rhs with
      | ast.Call call =>
          if negb (blank v) then Some v
          else if ignoreCall v call then Some v
          else if String.eqb (ast.Name id) "_" && callReturnsError v call
          then addErrorAtPosition v (ast.NamePos id) (Some call)
          else Some v
      | ast.TypeAssertExpr _ Type_ =>
          if negb (asserts v) then Some v
          else
            match Type_ with
            | None => Some v
            | Some _ => addErrorAtPosition v (ast.NamePos id) None
            end
      | _ => Some v
      end
  | _ => Some v
  end.

Fixpoint visitAssignPairs (v : visitor) (i : nat) (lhs rhs : list ast.Node)
    : option visitor :=
  match lhs with
  | [] => Some v
  | l :: rest =>
      v' ← visitAssignPair v l (rhs !! i);
      visitAssignPairs v' (S i) rest rhs
  end.

(** The assignment whose single right-hand side is a type assertion. *)
Definition visitAssignAssert (v : visitor) (lhs : list ast.Node)
    (rhs0 : ast.Node) (Type_ : option ast.Node) : option visitor :=
  if negb (asserts v) then Some v
  else
    match Type_ with
    | None => Some v                                      (* type switch *)
    | Some _ =>
        if (length lhs <? 2)%nat then
          addErrorAtPosition v (ast.Pos rhs0) None
        else
          match lhs !! 1%nat with
          | Some (ast.Id id) =>
              if blank v && String.eqb (ast.Name id) "_"
              then addErrorAtPosition v (ast.NamePos id) None
              else Some v
          | _ => Some v
          end
    end.

(** [Visit]. The visitor it returns is always the receiver, so only the
    new state is returned; [None] is a panic. *)
Definition Visit (v : visitor) (node : ast.Node) : option visitor :=
  match node with
  | ast.ExprStmt X =>
      match X with
      | ast.Call call => visitCallStmt v call
      | _ => Some v
      end
  | ast.GoStmt _ call => visitCallStmt v call
  | ast.DeferStmt _ call => visitCallStmt v call
  | ast.AssignStmt Lhs Rhs =>
      match Rhs with
      | [rhs0] =>
          match rhs0 with
          | ast.Call call =>
              if negb (blank v) then Some v
              else if ignoreCall v call then Some v
              else visitAssignCall v call (errorsByArg v call) 0 Lhs
          | ast.TypeAssertExpr _ Type_ => visitAssignAssert v Lhs rhs0 Type_
          | _ => Some v
          end
      | _ => visitAssignPairs v 0 Lhs Rhs
      end
  | _ => Some v
  end.

(** [ast.Walk(v, node)]: visit the node, then walk its children in source
    order. The closing [v.Visit(nil)] falls in [Visit]'s default case. *)
Fixpoint Walk (v : visitor) (node : ast.Node) {struct node} : option visitor :=
  let walkList :=
    fix walkList (v : visitor) (l : list ast.Node) {struct l} : option visitor :=
      match l with
      | [] => Some v
      | n :: l' => v' ← Walk v n; walkList v' l'
      end in
  v ← Visit v node;
  match node with
  | ast.Id _ => Some v
  | ast.SelectorExpr X Sel => v ← Walk v X; Visit v (ast.Id Sel)
  | ast.Call call => WalkCallChildren v call
  | ast.TypeAssertExpr X Type_ =>
      v ← Walk v X;
      match Type_ with
      | Some t => Walk v t
      | None => Some v
      end
  | ast.ExprStmt X => Walk v X
  | ast.GoStmt _ call => v ← Visit v (ast.Call call); WalkCallChildren v call
  | ast.DeferStmt _ call => v ← Visit v (ast.Call call); WalkCallChildren v call
  | ast.AssignStmt Lhs Rhs => v ← walkList v Lhs; walkList v Rhs
  | ast.Other _ children => walkList v children
  end
with WalkCallChildren (v : visitor) (call : ast.CallExpr) {struct call}
    : option visitor :=
  match call with
  | ast.mkCallExpr f _ args =>
      v ← Walk v f;
      (fix walkList (v : visitor) (l : list ast.Node) {struct l} : option visitor :=
         match l with
         | [] => Some v
         | n :: l' => v' ← Walk v n; walkList v' l'
         end) v args
  end.

(** Walking a list of nodes in order. *)
Fixpoint WalkList (v : visitor) (l : list ast.Node) : option visitor :=
  match l with
  | [] => Some v
  | n :: l' => v' ← Walk v n; WalkList v' l'
  end.

(** [ast.Walk(v, astFile)]: the file node and its name fall in [Visit]'s
    default case; the declarations are walked in order. *)
Definition WalkFile (v : visitor) (file : ast.File) : option visitor :=
  v ← Visit v (ast.Id (ast.FileName file));
  WalkList v (ast.Decls file).

End Visitor.

(** ** Finalisation of the collected issues *)

(** [byName.Less] on two elements of [u.Errors]. Go compares strings
    bytewise, as [String.ltb] does. *)
Definition byName_Less (ei ej : UncheckedError) : bool :=
  let pi := Pos ei in
  let pj := Pos ej in
  if negb (String.eqb (token.Filename pi) (token.Filename pj)) then
    String.ltb (token.Filename pi) (token.Filename pj)
  else if negb (token.Line pi =? token.Line pj)%Z then
    (token.Line pi <? token.Line pj)%Z
  else if negb (token.Column pi =? token.Column pj)%Z then
    (token.Column pi <? token.Column pj)%Z
  else String.ltb (Line ei) (Line ej).

(** The compaction loop of [CheckPackages], in place: [arr] is the backing
    array that [u.Errors] and [uniq] share, [n] is [len(uniq)], [i] the loop
    index and [steps] the number of iterations left. [append(uniq, err)]
    writes [arr[n]]; [u.Errors[i-1]] reads the shared array. *)
Fixpoint compact_loop (steps i : nat) (arr : list UncheckedError) (n : nat)
    : list UncheckedError * nat :=
  match steps with
  | O => (arr, n)
  | S steps' =>
      match arr !! i with
      | None => (arr, n)
      | Some err =>
          let keep :=
            match i with
            | O => true
            | S j =>
                match arr !! j with
                | Some prev => negb (bool_decide (err = prev))
                | None => true
                end
            end in
          if keep then compact_loop steps' (S i) (<[n := err]> arr) (S n)
          else compact_loop steps' (S i) arr n
      end
  end.

(** [uniq] after the loop: the first [len(uniq)] cells of the array. *)
Definition compact (l : list UncheckedError) : list UncheckedError :=
  let '(arr, n) := compact_loop (length l) 0 l 0 in take n arr.

(** The same list without the array: every element that differs from the
    one before it is kept. *)
Fixpoint uniq_after (prev : UncheckedError) (l : list UncheckedError)
    : list UncheckedError :=
  match l with
  | [] => []
  | x :: l' =>
      if bool_decide (x = prev) then uniq_after x l' else x :: uniq_after x l'
  end.

Definition uniq (l : list UncheckedError) : list UncheckedError :=
  match l with
  | [] => []
  | x :: l' => x :: uniq_after x l'
  end.

(** ** The scan *)

Section Scan.

Variable W : World.
Variable c : Checker.

(** [c.load] *)
Definition load (paths : list string) : list packages.Package + string :=
  loadPackages W
    {| packages.Tests := negb (TestFiles (Exclusions_ c));
       packages.BuildFlags := [fmtTags W (Tags c)] |}
    paths.

(** [c.shouldSkipFile] *)
Definition shouldSkipFile (file : ast.File) : bool :=
  if negb (GeneratedFiles (Exclusions_ c)) then false
  else
    existsb
      (fun cg =>
         existsb
           (fun comment =>
              regexp.MatchString generatedCodeRegexp (ast.Text comment))
           (ast.List cg))
      (ast.Comments file).

(** The first loop of [CheckPackages]: the first package with load
    diagnostics, if any. *)
Fixpoint firstWithErrors (pkgs : list packages.Package) : option packages.Package :=
  match pkgs with
  | [] => None
  | p :: rest =>
      if (0 <? length (packages.Errors p))%nat then Some p
      else firstWithErrors rest
  end.

Definition go111module_ : bool :=
  match go_env_GOMOD W with
  | Some gomod => negb (String.eqb (TrimSpace W gomod) "")
  | None => false
  end.

(** The map [ignore] *)
Definition ignore_ : gmap string regexp.Regexp :=
  fold_left
    (fun (ignore : gmap string regexp.Regexp) (pkg : string) =>
       let '(nonVendoredPkg, ok) := nonVendoredPkgPath pkg in
       if go111module_ && ok then <[nonVendoredPkg := dotStar]> ignore
       else <[pkg := dotStar]> ignore)
    (Packages (Exclusions_ c)) ∅.

(** The map [excludedSymbols] *)
Definition excludedSymbols : gmap string bool :=
  fold_left (fun (m : gmap string bool) (sym : string) => <[sym := true]> m)
    (Symbols (Exclusions_ c)) ∅.

(** The visitor a worker builds for [pkg]. *)
Definition newVisitor (pkg : packages.Package) : visitor :=
  {| pkg := pkg;
     ignore := ignore_;
     blank := negb (BlankAssignments (Exclusions_ c));
     asserts := negb (TypeAssertions (Exclusions_ c));
     lines := ∅;
     exclude := excludedSymbols;
     go111module := go111module_;
     errors := [] |}.

(** One iteration of the loop over [v.pkg.Syntax]. *)
Definition checkFile (v : visitor) (astFile : ast.File) : option visitor :=
  if shouldSkipFile astFile then Some v else WalkFile W v astFile.

Fixpoint checkFiles (v : visitor) (files : list ast.File) : option visitor :=
  match files with
  | [] => Some v
  | f :: rest => v' ← checkFile v f; checkFiles v' rest
  end.

(** The body of a worker's loop for one package: the issues it appends,
    or [None] when the visitor panics. *)
Definition checkPackage (pkg : packages.Package) : option (list UncheckedError) :=
  errors <$> checkFiles (newVisitor pkg) (packages.Syntax pkg).

(** *** The worker pool

    A worker is about to receive from the channel, holds a package, or has
    left its loop. Appending under the mutex is one step. *)
Inductive worker :=
| Receiving
| Checking (pkg : packages.Package)
| Exited.

Record pool := {
  work : list packages.Package;      (* the closed channel *)
  workers : list worker;
  u_Errors : list UncheckedError;    (* [u.Errors] *)
  visited : list packages.Package    (* packages handed to a visitor *)
}.

Inductive step : pool -> option pool -> Prop :=
| step_receive ws1 ws2 p q acc vis :
    step {| work := p :: q; workers := ws1 ++ Receiving :: ws2;
            u_Errors := acc; visited := vis |}
         (Some {| work := q; workers := ws1 ++ Checking p :: ws2;
                  u_Errors := acc; visited := vis ++ [p] |})
| step_closed ws1 ws2 acc vis :
    step {| work := []; workers := ws1 ++ Receiving :: ws2;
            u_Errors := acc; visited := vis |}
         (Some {| work := []; workers := ws1 ++ Exited :: ws2;
                  u_Errors := acc; visited := vis |})
| step_append ws1 ws2 p q acc vis errs :
    checkPackage p = Some errs ->
    step {| work := q; workers := ws1 ++ Checking p :: ws2;
            u_Errors := acc; visited := vis |}
         (Some {| work := q; workers := ws1 ++ Receiving :: ws2;
                  u_Errors := acc ++ errs; visited := vis |})
| step_panic ws1 ws2 p q acc vis :
    checkPackage p = None ->
    step {| work := q; workers := ws1 ++ Checking p :: ws2;
            u_Errors := acc; visited := vis |}
         None.

(** [run s r]: from [s] the pool reaches [wg.Wait()]'s return with state
    [r], or panics ([None]). *)
Inductive run : pool -> option pool -> Prop :=
| run_done s : Forall (fun w => w = Exited) (workers s) -> run s (Some s)
| run_panic s : step s None -> run s None
| run_step s s' r : step s (Some s') -> run s' r -> run s r.

Definition start (pkgs : list packages.Package) : pool :=
  {| work := pkgs; workers := replicate (NumCPU W) Receiving;
     u_Errors := []; visited := [] |}.

(** The end of [CheckPackages]: sort, compact, and return [u] or [nil]. *)
Definition finalize (u : list UncheckedError) : option error :=
  if (0 <? length u)%nat
  then Some (UncheckedErrors (compact (sort_Sort W byName_Less u)))
  else None.

(** What a call of [CheckPackages] does: it returns an error or [nil], or
    panics; [seen] lists the packages that a visitor was run on. *)
Inductive outcome :=
| Return (err : option error) (seen : list packages.Package)
| Panic.

(** [CheckPackages] *)
Inductive CheckPackages (paths : list string) : outcome -> Prop :=
| CheckPackages_load msg :
    load paths = inr msg ->
    CheckPackages paths (Return (Some (LoadError msg)) [])
| CheckPackages_errors pkgs p :
    load paths = inl pkgs ->
    firstWithErrors pkgs = Some p ->
    CheckPackages paths
      (Return (Some (ErrorsWhileLoading (packages.ID p) (packages.Errors p))) [])
| CheckPackages_run pkgs s :
    load paths = inl pkgs ->
    firstWithErrors pkgs = None ->
    run (start pkgs) (Some s) ->
    CheckPackages paths (Return (finalize (u_Errors s)) (visited s))
| CheckPackages_panic pkgs :
    load paths = inl pkgs ->
    firstWithErrors pkgs = None ->
    run (start pkgs) None ->
    CheckPackages paths Panic.

End Scan.

(** ** Vocabulary of the properties *)

(** A position the file set resolves to a line of a file. *)
Definition validPos (v : visitor) (p : token.Pos) : Prop :=
  (1 <= token.Line (packages.Fset_Position (pkg v) p))%Z.

(** The result types of a call as the type checker records them: the
    members of a tuple, or the single type. *)
Definition resultTypes (t : option types.Typ) : list types.Typ :=
  match t with
  | Some (types.Tuple ts) => ts
  | Some t => [t]
  | None => []
  end.

Definition isNamedOrPointer (t : types.Typ) : bool :=
  match t with
  | types.Named _ | types.Pointer _ => true
  | _ => false
  end.

Definition isBlank (n : ast.Node) : bool :=
  match n with
  | ast.Id id => String.eqb (ast.Name id) "_"
  | _ => false
  end.

(** A text with a line feed in it. *)
Fixpoint hasNewline (s : string) : bool :=
  match s with
  | EmptyString => false
  | String a s' => Ascii.eqb a regexp.newline || hasNewline s'
  end.

(** ** Sample inputs *)

(** [sort.Sort] on a short slice is the insertion sort of package [sort]:
    element [i] sinks while it is [Less] than its left neighbour. [sink]
    works on the sorted prefix in reverse. *)
Fixpoint sink {A} (less : A -> A -> bool) (x : A) (rev_prefix : list A) : list A :=
  match rev_prefix with
  | [] => [x]
  | y :: r => if less x y then y :: sink less x r else x :: y :: r
  end.

Definition insertionSort {A} (less : A -> A -> bool) (l : list A) : list A :=
  rev (fold_left (fun acc x => sink less x acc) l []).

(** [strings.TrimSpace] on ASCII text. *)
Definition isSpace (a : ascii) : bool :=
  existsb (Ascii.eqb a) [" "; "009"; "010"; "011"; "012"; "013"]%char.

Fixpoint trimLeft (s : string) : string :=
  match s with
  | String a s' => if isSpace a then trimLeft s' else s
  | EmptyString => EmptyString
  end.

Definition trimSpaceAscii (s : string) : string :=
  String.rev (trimLeft (String.rev (trimLeft s))).

(** A world with one source file, [main.go], in which [error] is the only
    error type, on a machine with two CPUs. *)
Definition main_go : list string :=
  [ "package main";
    "";
    "func main() {";
    "	recover()";
    "	f.Close()";
    "	v, _ := os.Open(name)";
    "	a, b := x.(T), y.(U)";
    "	v := x.(T)";
    "}" ].

Definition sampleWorld : World :=
  {| loadPackages := fun _ _ => inl [];
     go_env_GOMOD := Some "/src/go.mod";
     NumCPU := 2;
     fileLines := fun name => if String.eqb name "main.go" then main_go else [];
     TrimSpace := trimSpaceAscii;
     Implements_errorType :=
       fun t => match t with types.Named n => String.eqb n "error" | _ => false end;
     TypeString :=
       fun t => match t with
                | types.Named n | types.OtherType n => n
                | types.Pointer _ => "*"
                | types.Tuple _ => "()"
                end;
     walkThroughEmbeddedInterfaces := fun _ => None;
     fmtTags := fun tags => "-tags=" +:+ String.concat " " tags;
     sort_Sort := insertionSort |}.

(** Type information for [main.go]: [recover] is the builtin and returns
    [interface{}]; [Close] is a method returning [error]; [Now] is
    [time.Now], returning the named type [time.Time]; [Open] is
    [os.Open], returning a file pointer and an [error]. *)
Definition sampleInfo : types.Info :=
  {| types.Types := fun e =>
       match e with
       | ast.Call (ast.mkCallExpr (ast.Id id) _ _) =>
           if String.eqb (ast.Name id) "recover"
           then Some (types.OtherType "interface{}") else None
       | ast.Call (ast.mkCallExpr (ast.SelectorExpr _ sel) _ _) =>
           if String.eqb (ast.Name sel) "Close" then Some (types.Named "error")
           else if String.eqb (ast.Name sel) "Now" then Some (types.Named "time.Time")
           else if String.eqb (ast.Name sel) "Open"
           then Some (types.Tuple [types.Pointer (types.Named "os.File");
                                   types.Named "error"])
           else None
       | _ => None
       end;
     types.TypeOf := fun _ => None;
     types.ObjectOf := fun id =>
       if String.eqb (ast.Name id) "Close"
       then Some (types.Func (Some {| types.Path := "os"; types.Name := "os" |})
                    "Close" "(*os.File).Close")
       else if String.eqb (ast.Name id) "Open"
       then Some (types.Func (Some {| types.Path := "os"; types.Name := "os" |})
                    "Open" "os.Open")
       else None;
     types.Uses := fun id =>
       if String.eqb (ast.Name id) "recover" then Some (types.Builtin "recover")
       else None;
     types.Selections := fun _ _ => None |}.

(** Positions of [main.go] are [100 * line + column]. *)
Definition samplePosition (p : token.Pos) : token.Position :=
  {| token.Filename := "main.go"; token.Offset := p;
     token.Line := Z.max 1 (p / 100); token.Column := p mod 100 |}.

Definition samplePackage : packages.Package :=
  {| packages.ID := "example.com/main";
     packages.Errors := [];
     packages.Types_Path := "example.com/main";
     packages.Fset_Position := samplePosition;
     packages.Syntax := [];
     packages.TypesInfo := sampleInfo |}.

Definition sampleChecker : Checker :=
  {| Exclusions_ :=
       {| Packages := []; Symbols := []; TestFiles := false;
          GeneratedFiles := true; BlankAssignments := false;
          TypeAssertions := false |};
     Tags := []; Verbose := false |}.

Definition sampleVisitor : visitor := newVisitor sampleWorld sampleChecker samplePackage.

Definition ident (line col : Z) (name : string) : ast.Ident :=
  {| ast.NamePos := 100 * line + col; ast.Name := name |}.

(** [recover()] on line 4 *)
Definition recoverCall : ast.CallExpr :=
  ast.mkCallExpr (ast.Id (ident 4 2 "recover")) 409 [].

(** [f.Close()] on line 5 *)
Definition closeCall : ast.CallExpr :=
  ast.mkCallExpr (ast.SelectorExpr (ast.Id (ident 5 2 "f")) (ident 5 4 "Close")) 509 [].

(** [os.Open(name)] on line 6 *)
Definition openCall : ast.CallExpr :=
  ast.mkCallExpr (ast.SelectorExpr (ast.Id (ident 6 10 "os")) (ident 6 13 "Open")) 617
    [ast.Id (ident 6 18 "name")].

(** [time.Now()] *)
Definition nowCall : ast.CallExpr :=
  ast.mkCallExpr (ast.SelectorExpr (ast.Id (ident 9 2 "time")) (ident 9 7 "Now")) 910 [].

(** The same checker without type-assertion checking. *)
Definition quietChecker : Checker :=
  {| Exclusions_ :=
       {| Packages := []; Symbols := []; TestFiles := false;
          GeneratedFiles := true; BlankAssignments := false;
          TypeAssertions := true |};
     Tags := []; Verbose := false |}.

Definition quietVisitor : visitor := newVisitor sampleWorld quietChecker samplePackage.

(** [x.(T)] and [y.(U)] on line 7, [x.(T)] on line 8 *)
Definition assertXT (line col : Z) (x t : string) : ast.Node :=
  ast.TypeAssertExpr (ast.Id (ident line col x)) (Some (ast.Id (ident line (col + 3) t))).

(** * Properties *)

(** ** Facts about the visitor *)

Section VisitFacts.

Variable W : World.

Lemma lineText_valid (ls : list string) (pos : token.Position) :
  (1 <= token.Line pos)%Z -> is_Some (lineText W ls pos).
Proof.
  intros Hline. unfold lineText.
  destruct (Z.ltb_spec (token.Line pos - 1) (Z.of_nat (length ls))) as [Hlt|_];
    [|by eexists].
  destruct (Z.ltb_spec (token.Line pos - 1) 0) as [Hneg|_]; [lia|].
  destruct (lookup_lt_is_Some_2 ls (Z.to_nat (token.Line pos - 1))) as [s Hs];
    [lia|].
  rewrite Hs. by eexists.
Qed.

Lemma addErrorAtPosition_valid (v : visitor) (p : token.Pos)
    (call : option ast.CallExpr) :
  validPos v p ->
  exists cache line,
    addErrorAtPosition W v p call =
    Some (set_errors v cache
            (errors v ++
               [{| Pos := packages.Fset_Position (pkg v) p;
                   Line := line;
                   FuncName := match call with
                               | Some call => fullName v call
                               | None => ""
                               end |}])).
Proof.
  intros Hvalid. unfold addErrorAtPosition.
  destruct (lines v !! token.Filename (packages.Fset_Position (pkg v) p)) as [l|].
  - destruct (lineText_valid l _ Hvalid) as [line Hline].
    rewrite Hline. simpl. by eexists _, _.
  - destruct (lineText_valid (readfile W (token.Filename (packages.Fset_Position (pkg v) p)))
                _ Hvalid) as [line Hline].
    rewrite Hline. simpl. by eexists _, _.
Qed.

(** Without an error type among the results, every entry of
    [errorsByArg] is [false]. *)
Lemma errorsByArg_no_error (v : visitor) (call : ast.CallExpr) :
  (forall t, t ∈ resultTypes (types.Types (info v) (ast.Call call)) ->
             isErrorType W t = false) ->
  Forall (fun b => b = false) (errorsByArg W v call).
Proof.
  intros Hno. unfold errorsByArg.
  destruct (types.Types (info v) (ast.Call call)) as [[n|e|ts|d]|]; simpl in *.
  - constructor; [|constructor]. apply Hno. set_solver.
  - constructor; [|constructor]. apply Hno. set_solver.
  - induction ts as [|t ts IH]; simpl; constructor.
    + destruct t; try reflexivity; apply Hno; set_solver.
    + apply IH. intros t' Ht'. apply Hno. set_solver.
  - by repeat constructor.
  - by repeat constructor.
Qed.

Lemma existsb_all_false (l : list bool) :
  Forall (fun b => b = false) l -> existsb (fun isError => isError) l = false.
Proof. induction 1 as [|b l -> _ IH]; simpl; auto. Qed.

Lemma callReturnsError_no_error (v : visitor) (call : ast.CallExpr) :
  isRecover v call = false ->
  Forall (fun b => b = false) (errorsByArg W v call) ->
  callReturnsError W v call = false.
Proof.
  intros Hrec Hall. unfold callReturnsError. rewrite Hrec.
  by apply existsb_all_false.
Qed.

Lemma visitAssignCall_no_error (v : visitor) (call : ast.CallExpr)
    (isError : list bool) (lhs : list ast.Node) (i : nat) :
  isRecover v call = false ->
  Forall (fun b => b = false) isError ->
  (i + length lhs <= length isError)%nat ->
  visitAssignCall W v call isError i lhs = Some v.
Proof.
  intros Hrec Hall. revert i.
  induction lhs as [|l rest IH]; intros i Hlen; simpl in *; [done|].
  assert (isError !! i = Some false) as Hi.
  { destruct (lookup_lt_is_Some_2 isError i) as [b Hb]; [lia|].
    rewrite Hb. f_equal. eapply Forall_lookup_1 in Hall; eauto. }
  assert (visitAssignTarget W v call isError i l = Some v) as ->.
  { destruct l as [id| | | | | | | |]; simpl; try done.
    destruct (String.eqb (ast.Name id) "_"); [|done].
    by rewrite Hrec, Hi. }
  simpl. apply IH. lia.
Qed.

End VisitFacts.

(** ** The detection rules *)

Section DetectionRules.

Variable W : World.

(** The issue [addErrorAtPosition] builds for position [p]. *)
Local Abbreviation issue v p line name :=
  {| Pos := packages.Fset_Position (pkg v) p; Line := line; FuncName := name |}.

(** C1 (amended): a call that is not the built-in [recover] and whose
    result types (the single type, or every member of the tuple) include
    no error type produces no issue and leaves the visitor as it was: as
    an expression statement, in a [go] or [defer] statement, as the single
    right-hand side of an assignment with at most as many targets as
    results, and as a term of an assignment with several right-hand sides,
    whatever its target. *)
Theorem no_error_result_no_issue (v : visitor) (call : ast.CallExpr) :
  (forall t, t ∈ resultTypes (types.Types (info v) (ast.Call call)) ->
             isErrorType W t = false) ->
  isRecover v call = false ->
  Visit W v (ast.ExprStmt (ast.Call call)) = Some v
  /\ (forall go, Visit W v (ast.GoStmt go call) = Some v)
  /\ (forall defer, Visit W v (ast.DeferStmt defer call) = Some v)
  /\ (forall lhs, (length lhs <= length (errorsByArg W v call))%nat ->
                  Visit W v (ast.AssignStmt lhs [ast.Call call]) = Some v)
  /\ (forall target, visitAssignPair W v target (Some (ast.Call call)) = Some v).
Proof.
  intros Hno Hrec.
  pose proof (errorsByArg_no_error W v call Hno) as Hall.
  pose proof (callReturnsError_no_error W v call Hrec Hall) as Hret.
  assert (visitCallStmt W v call = Some v) as Hstmt.
  { unfold visitCallStmt. rewrite Hret. by rewrite andb_false_r. }
  repeat split; simpl; auto.
  - intros lhs Hlen.
    destruct (blank v); simpl; [|done].
    destruct (ignoreCall W v call); [done|].
    apply visitAssignCall_no_error; auto.
  - intros target. destruct target; simpl; try done.
    destruct (blank v); simpl; [|done].
    destruct (ignoreCall W v call); [done|].
    rewrite Hret. by rewrite andb_false_r.
Qed.

(** C4: for [target0, _ = call] where the call is not excluded and has the
    result tuple (T, E) with E an error type, and where [target0] does not
    itself discard an error: with blank-assignment checking exactly one
    issue is appended, at the blank identifier's position and labelled
    with the call's name; without it the visitor is left unchanged. *)
Theorem blank_error_slot (v : visitor) (target0 : ast.Node) (id : ast.Ident)
    (call : ast.CallExpr) (T E : types.Typ) :
  types.Types (info v) (ast.Call call) = Some (types.Tuple [T; E]) ->
  isNamedOrPointer E && isErrorType W E = true ->
  ignoreCall W v call = false ->
  ast.Name id = "_" ->
  isBlank target0 && (isRecover v call || isNamedOrPointer T && isErrorType W T) = false ->
  validPos v (ast.NamePos id) ->
  (blank v = true ->
   exists cache line,
     Visit W v (ast.AssignStmt [target0; ast.Id id] [ast.Call call]) =
     Some (set_errors v cache
             (errors v ++ [issue v (ast.NamePos id) line (fullName v call)])))
  /\ (blank v = false ->
      Visit W v (ast.AssignStmt [target0; ast.Id id] [ast.Call call]) = Some v).
Proof.
  intros Hty HE Hign Hname Hfirst Hvalid.
  split; intros Hblank; cbn [Visit]; rewrite Hblank; simpl; [|done].
  rewrite Hign. unfold errorsByArg. rewrite Hty.
  cbn [map visitAssignCall].
  assert (match E with
          | types.Named _ | types.Pointer _ => isErrorType W E
          | _ => false
          end = true) as ->.
  { destruct E; simpl in HE; try done. }
  match goal with
  | |- context [visitAssignTarget W v call ?s 0%nat target0] =>
      assert (visitAssignTarget W v call s 0%nat target0 = Some v) as ->
  end.
  { destruct target0 as [id0| | | | | | | |]; try done. simpl in Hfirst |- *.
    destruct (String.eqb (ast.Name id0) "_"); [|done]. simpl in Hfirst.
    apply orb_false_iff in Hfirst as [-> HT].
    destruct T; simpl in *; try done; by rewrite HT. }
  destruct (addErrorAtPosition_valid W v (ast.NamePos id) (Some call) Hvalid)
    as (cache & line & Hadd).
  exists cache, line. simpl. rewrite Hname. simpl.
  destruct (isRecover v call); simpl; by rewrite Hadd.
Qed.

(** C5: for an assignment whose single right-hand side is the type
    assertion [X.(T)]: with type-assertion checking and a single target,
    exactly one issue is appended, at the assertion's position and with an
    empty function name; when the second target is an identifier other
    than the blank one, the visitor is left unchanged, whatever the
    toggles. *)
Theorem single_type_assertion (v : visitor) (X T : ast.Node) :
  (forall target,
      asserts v = true ->
      validPos v (ast.Pos (ast.TypeAssertExpr X (Some T))) ->
      exists cache line,
        Visit W v (ast.AssignStmt [target] [ast.TypeAssertExpr X (Some T)]) =
        Some (set_errors v cache
                (errors v ++
                   [issue v (ast.Pos (ast.TypeAssertExpr X (Some T))) line ""])))
  /\ (forall target ok,
         ast.Name ok <> "_" ->
         Visit W v (ast.AssignStmt [target; ast.Id ok]
                      [ast.TypeAssertExpr X (Some T)]) = Some v).
Proof.
  split.
  - intros target Hasserts Hvalid. simpl. unfold visitAssignAssert.
    rewrite Hasserts. simpl.
    destruct (addErrorAtPosition_valid W v _ None Hvalid) as (cache & line & Hadd).
    exists cache, line. exact Hadd.
  - intros target ok Hok. simpl. unfold visitAssignAssert.
    destruct (asserts v); simpl; [|done].
    apply String.eqb_neq in Hok. rewrite Hok.
    by rewrite andb_false_r.
Qed.

(** The loop body on a type assertion bound to an identifier. *)
Lemma visitAssignPair_assert (v : visitor) (id : ast.Ident) (X T : ast.Node) :
  validPos v (ast.NamePos id) ->
  (asserts v = true ->
   exists cache line,
     visitAssignPair W v (ast.Id id) (Some (ast.TypeAssertExpr X (Some T))) =
     Some (set_errors v cache (errors v ++ [issue v (ast.NamePos id) line ""])))
  /\ (asserts v = false ->
      visitAssignPair W v (ast.Id id) (Some (ast.TypeAssertExpr X (Some T))) = Some v).
Proof.
  intros Hvalid. split; intros Hasserts; simpl; rewrite Hasserts; simpl; [|done].
  destruct (addErrorAtPosition_valid W v _ None Hvalid) as (cache & line & Hadd).
  by exists cache, line.
Qed.

(** The loop body never fails on resolvable positions, and it only
    appends. *)
Lemma visitAssignPair_appends (v : visitor) (l r : ast.Node) :
  (forall p, validPos v p) ->
  exists cache new,
    visitAssignPair W v l (Some r) = Some (set_errors v cache (errors v ++ new))
    /\ (forall e, e ∈ new ->
          exists id, l = ast.Id id
                     /\ Pos e = packages.Fset_Position (pkg v) (ast.NamePos id)
                     /\ ((exists call, r = ast.Call call)
                         \/ (asserts v = true /\ exists X T, r = ast.TypeAssertExpr X T))).
Proof.
  intros Hvalid.
  assert (exists cache, Some v = Some (set_errors v cache (errors v ++ []))
                        /\ forall e : UncheckedError, e ∈ [] -> False) as Hsame.
  { exists (lines v). split; [|by intros e ?%elem_of_nil].
    destruct v; unfold set_errors; simpl. by rewrite app_nil_r. }
  assert (forall o : option visitor,
             o = Some v ->
             exists cache new,
               o = Some (set_errors v cache (errors v ++ new))
               /\ (forall e, e ∈ new ->
                     exists id, l = ast.Id id
                       /\ Pos e = packages.Fset_Position (pkg v) (ast.NamePos id)
                       /\ ((exists call, r = ast.Call call)
                           \/ (asserts v = true
                               /\ exists X T, r = ast.TypeAssertExpr X T)))) as Hnone.
  { intros o ->. destruct Hsame as (cache & Heq & Hnil).
    exists cache, []. split; [done|]. intros e He. by destruct (Hnil e). }
  destruct l as [id| | | | | | | |]; try (by apply Hnone).
  destruct r as [|  |call|X T| | | | |]; try (by apply Hnone); simpl.
  - destruct (blank v); simpl; [|by apply Hnone].
    destruct (ignoreCall W v call); [by apply Hnone|].
    destruct (String.eqb (ast.Name id) "_" && callReturnsError W v call);
      [|by apply Hnone].
    destruct (addErrorAtPosition_valid W v (ast.NamePos id) (Some call) (Hvalid _))
      as (cache & line & Hadd).
    exists cache, [issue v (ast.NamePos id) line (fullName v call)].
    split; [done|]. intros e ->%list_elem_of_singleton. eauto 10.
  - destruct (asserts v) eqn:Hasserts; simpl; [|by apply Hnone].
    destruct T as [T|]; [|by apply Hnone].
    destruct (addErrorAtPosition_valid W v (ast.NamePos id) None (Hvalid _))
      as (cache & line & Hadd).
    exists cache, [issue v (ast.NamePos id) line ""].
    split; [done|]. intros e ->%list_elem_of_singleton. eauto 10.
Qed.

(** The whole loop: it returns, it only appends, an enabled type
    assertion bound to an identifier has its issue among the new ones, and
    every new issue sits at an identifier target bound to a call or, with
    type-assertion checking, to a type assertion. *)
Lemma visitAssignPairs_appends (lhs rhs : list ast.Node) (v : visitor) (i : nat) :
  (forall p, validPos v p) ->
  (i + length lhs <= length rhs)%nat ->
  exists cache new,
    visitAssignPairs W v i lhs rhs = Some (set_errors v cache (errors v ++ new))
    /\ (forall k id X T,
          lhs !! k = Some (ast.Id id) ->
          rhs !! (i + k)%nat = Some (ast.TypeAssertExpr X (Some T)) ->
          asserts v = true ->
          exists line, issue v (ast.NamePos id) line "" ∈ new)
    /\ (forall e, e ∈ new ->
          exists k id,
            lhs !! k = Some (ast.Id id)
            /\ Pos e = packages.Fset_Position (pkg v) (ast.NamePos id)
            /\ ((exists call, rhs !! (i + k)%nat = Some (ast.Call call))
                \/ (asserts v = true
                    /\ exists X T, rhs !! (i + k)%nat = Some (ast.TypeAssertExpr X T)))).
Proof.
  revert v i. induction lhs as [|l rest IH]; intros v i Hvalid Hlen.
  { exists (lines v), []. simpl. split; [|split].
    - destruct v; unfold set_errors; simpl. by rewrite app_nil_r.
    - by intros k id X T Hk.
    - by intros e ?%elem_of_nil. }
  simpl in Hlen.
  destruct (lookup_lt_is_Some_2 rhs i) as [r Hr]; [lia|].
  destruct (visitAssignPair_appends v l r Hvalid) as (cache1 & new1 & H1 & Hfrom1).
  destruct (IH (set_errors v cache1 (errors v ++ new1)) (S i))
    as (cache2 & new2 & H2 & Hassert2 & Hfrom2); [done|lia|].
  exists cache2, (new1 ++ new2)%list. split; [|split].
  - cbn [visitAssignPairs]. rewrite Hr, H1. simpl. rewrite H2.
    unfold set_errors; simpl. by rewrite app_assoc.
  - intros k id X T Hk Hrk Hasserts. destruct k as [|k]; simpl in Hk.
    + injection Hk as ->. rewrite Nat.add_0_r, Hr in Hrk. injection Hrk as ->.
      destruct (visitAssignPair_assert v id X T (Hvalid _)) as [Hon _].
      destruct (Hon Hasserts) as (cache & line & Heq).
      rewrite H1 in Heq.
      pose proof (f_equal (fmap errors) Heq) as Herr. simpl in Herr.
      injection Herr as Herr. apply app_inv_head in Herr. subst new1.
      exists line. apply elem_of_app. left. by apply list_elem_of_singleton.
    + destruct (Hassert2 k id X T Hk) as [line Hline]; [|done|].
      { by replace (S i + k)%nat with (i + S k)%nat by lia. }
      exists line. apply elem_of_app. by right.
  - intros e [He|He]%elem_of_app.
    + destruct (Hfrom1 e He) as (id & -> & Hpos & Hkind).
      exists 0%nat, id. rewrite Nat.add_0_r, Hr. split; [done|]. split; [done|].
      destruct Hkind as [[call ->]|[? (X & T & ->)]]; eauto 10.
    + destruct (Hfrom2 e He) as (k & id & Hk & Hpos & Hkind).
      exists (S k), id. replace (i + S k)%nat with (S i + k)%nat by lia. eauto.
Qed.

(** C6 (amended): in an assignment with several right-hand sides, one per
    target, all positions resolvable, let term [k] be the type assertion
    [X.(T)] bound to the identifier [id]. The visit returns and only
    appends issues. With type-assertion checking enabled, an issue at
    [id]'s position with an empty function name is among them, whatever
    the blank-assignment toggle and whether or not [id] is blank. With
    type-assertion checking disabled, the loop body leaves the visitor
    unchanged on that term, and every issue of the statement sits at a
    target bound to a call. *)
Theorem multi_type_assertion_follows_toggle (v : visitor) (lhs rhs : list ast.Node)
    (k : nat) (id : ast.Ident) (X T : ast.Node) :
  length rhs <> 1%nat ->
  length lhs = length rhs ->
  (forall p, validPos v p) ->
  lhs !! k = Some (ast.Id id) ->
  rhs !! k = Some (ast.TypeAssertExpr X (Some T)) ->
  exists cache new,
    Visit W v (ast.AssignStmt lhs rhs) = Some (set_errors v cache (errors v ++ new))
    /\ (asserts v = true -> exists line, issue v (ast.NamePos id) line "" ∈ new)
    /\ (asserts v = false ->
        visitAssignPair W v (ast.Id id) (Some (ast.TypeAssertExpr X (Some T))) = Some v
        /\ forall e, e ∈ new ->
             exists j idj call,
               lhs !! j = Some (ast.Id idj) /\ rhs !! j = Some (ast.Call call)
               /\ Pos e = packages.Fset_Position (pkg v) (ast.NamePos idj)).
Proof.
  intros Hmulti Hlen Hvalid Hl Hr.
  destruct (visitAssignPairs_appends lhs rhs v 0 Hvalid)
    as (cache & new & Hvisit & Hassert & Hfrom); [simpl; lia|].
  exists cache, new. split; [|split].
  - rewrite <- Hvisit. cbn [Visit].
    destruct rhs as [|r0 [|r1 rhs']]; simpl in Hmulti; done.
  - intros Hasserts. by apply (Hassert k id X T).
  - intros Hasserts. split.
    + by apply (visitAssignPair_assert v id X T (Hvalid _)).
    + intros e He. destruct (Hfrom e He) as (j & idj & Hj & Hpos & Hkind).
      destruct Hkind as [[call Hcall]|[Hon _]]; [|congruence].
      exists j, idj, call. auto.
Qed.

(** C10: with type-assertion checking enabled, the loop body of an
    assignment with several right-hand sides appends exactly one issue for
    a type assertion [X.(T)] bound to an identifier other than the blank
    one, at that identifier's position and with an empty function name;
    and [a, b := x.(T), y.(U)] yields exactly two issues, the first at [a]
    and the second at [b]. *)
Theorem multi_type_assertion_named_target (v : visitor) :
  asserts v = true ->
  (forall p, validPos v p) ->
  (forall id X T,
      ast.Name id <> "_" ->
      exists cache line,
        visitAssignPair W v (ast.Id id) (Some (ast.TypeAssertExpr X (Some T))) =
        Some (set_errors v cache (errors v ++ [issue v (ast.NamePos id) line ""])))
  /\ (forall a b x y T U,
         ast.Name a <> "_" -> ast.Name b <> "_" ->
         exists cache line_a line_b,
           Visit W v (ast.AssignStmt [ast.Id a; ast.Id b]
                        [ast.TypeAssertExpr x (Some T); ast.TypeAssertExpr y (Some U)]) =
           Some (set_errors v cache
                   (errors v ++ [issue v (ast.NamePos a) line_a "";
                                 issue v (ast.NamePos b) line_b ""]))).
Proof.
  intros Hasserts Hvalid. split.
  - intros id X T _.
    by apply (visitAssignPair_assert v id X T (Hvalid _)).
  - intros a b x y T U _ _. cbn [Visit visitAssignPairs]. simpl lookup.
    destruct (visitAssignPair_assert v a x T (Hvalid _)) as [Ha _].
    destruct (Ha Hasserts) as (cache1 & line_a & ->). simpl.
    set (v1 := set_errors v cache1 (errors v ++ [issue v (ast.NamePos a) line_a ""])).
    destruct (visitAssignPair_assert v1 b y U (Hvalid _)) as [Hb _].
    destruct (Hb Hasserts) as (cache2 & line_b & Hb').
    simpl in Hb'. rewrite Hasserts in Hb' |- *. simpl in Hb' |- *.
    exists cache2, line_a, line_b. rewrite Hb'. simpl.
    unfold v1, set_errors; simpl. by rewrite <- app_assoc.
Qed.

End DetectionRules.

(** *** The rules on [main.go] *)

Lemma sample_positions_valid (v : visitor) :
  pkg v = samplePackage -> forall p, validPos v p.
Proof. intros Hpkg p. unfold validPos. rewrite Hpkg. simpl. lia. Qed.

Lemma no_error_result_no_issue_witness :
  Visit sampleWorld sampleVisitor (ast.ExprStmt (ast.Call nowCall)) = Some sampleVisitor
  /\ (forall go, Visit sampleWorld sampleVisitor (ast.GoStmt go nowCall) = Some sampleVisitor)
  /\ (forall defer,
         Visit sampleWorld sampleVisitor (ast.DeferStmt defer nowCall) = Some sampleVisitor)
  /\ (forall lhs,
         (length lhs <= length (errorsByArg sampleWorld sampleVisitor nowCall))%nat ->
         Visit sampleWorld sampleVisitor (ast.AssignStmt lhs [ast.Call nowCall]) =
         Some sampleVisitor)
  /\ (forall target,
         visitAssignPair sampleWorld sampleVisitor target (Some (ast.Call nowCall)) =
         Some sampleVisitor).
Proof.
  apply (no_error_result_no_issue sampleWorld sampleVisitor nowCall).
  - intros t Ht. simpl in Ht. apply list_elem_of_singleton in Ht. subst t. reflexivity.
  - reflexivity.
Defined.

(** C1 as stated fails on [recover()]: its result type [interface{}] is no
    error type, and the expression statement is reported. *)
Lemma recover_reported_without_error_type :
  (forall t,
      t ∈ resultTypes (types.Types (info sampleVisitor) (ast.Call recoverCall)) ->
      isErrorType sampleWorld t = false)
  /\ errors <$> Visit sampleWorld sampleVisitor (ast.ExprStmt (ast.Call recoverCall)) =
     Some [{| Pos := {| token.Filename := "main.go"; token.Offset := 409;
                        token.Line := 4; token.Column := 9 |};
              Line := "recover()"; FuncName := "" |}].
Proof.
  split; [|reflexivity].
  intros t Ht. simpl in Ht. apply list_elem_of_singleton in Ht. subst t. reflexivity.
Qed.

Lemma blank_error_slot_witness :
  (blank sampleVisitor = true ->
   exists cache line,
     Visit sampleWorld sampleVisitor
       (ast.AssignStmt [ast.Id (ident 6 2 "v"); ast.Id (ident 6 5 "_")]
          [ast.Call openCall]) =
     Some (set_errors sampleVisitor cache
             (errors sampleVisitor ++
                [{| Pos := samplePosition 605; Line := line; FuncName := "os.Open" |}])))
  /\ (blank sampleVisitor = false ->
      Visit sampleWorld sampleVisitor
        (ast.AssignStmt [ast.Id (ident 6 2 "v"); ast.Id (ident 6 5 "_")]
           [ast.Call openCall]) = Some sampleVisitor).
Proof.
  apply (blank_error_slot sampleWorld sampleVisitor (ast.Id (ident 6 2 "v"))
           (ident 6 5 "_") openCall (types.Pointer (types.Named "os.File"))
           (types.Named "error")).
  - reflexivity.
  - reflexivity.
  - reflexivity.
  - reflexivity.
  - reflexivity.
  - unfold validPos. simpl. lia.
Defined.

Lemma single_type_assertion_witness :
  (forall target,
      asserts sampleVisitor = true ->
      validPos sampleVisitor (ast.Pos (assertXT 8 7 "x" "T")) ->
      exists cache line,
        Visit sampleWorld sampleVisitor (ast.AssignStmt [target] [assertXT 8 7 "x" "T"]) =
        Some (set_errors sampleVisitor cache
                (errors sampleVisitor ++
                   [{| Pos := samplePosition 807; Line := line; FuncName := "" |}])))
  /\ (forall target ok,
         ast.Name ok <> "_" ->
         Visit sampleWorld sampleVisitor
           (ast.AssignStmt [target; ast.Id ok] [assertXT 8 7 "x" "T"]) =
         Some sampleVisitor).
Proof.
  exact (single_type_assertion sampleWorld sampleVisitor
           (ast.Id (ident 8 7 "x")) (ast.Id (ident 8 10 "T"))).
Defined.

Lemma multi_type_assertion_follows_toggle_witness :
  exists cache new,
    Visit sampleWorld sampleVisitor
      (ast.AssignStmt [ast.Id (ident 7 2 "a"); ast.Id (ident 7 5 "b")]
         [assertXT 7 10 "x" "T"; assertXT 7 17 "y" "U"]) =
    Some (set_errors sampleVisitor cache (errors sampleVisitor ++ new))
    /\ (asserts sampleVisitor = true ->
        exists line, {| Pos := samplePosition 705; Line := line; FuncName := "" |} ∈ new)
    /\ (asserts sampleVisitor = false ->
        visitAssignPair sampleWorld sampleVisitor (ast.Id (ident 7 5 "b"))
          (Some (assertXT 7 17 "y" "U")) = Some sampleVisitor
        /\ forall e, e ∈ new ->
             exists j idj call,
               [ast.Id (ident 7 2 "a"); ast.Id (ident 7 5 "b")] !! j = Some (ast.Id idj)
               /\ [assertXT 7 10 "x" "T"; assertXT 7 17 "y" "U"] !! j = Some (ast.Call call)
               /\ Pos e = samplePosition (ast.NamePos idj)).
Proof.
  apply (multi_type_assertion_follows_toggle sampleWorld sampleVisitor
           [ast.Id (ident 7 2 "a"); ast.Id (ident 7 5 "b")]
           [assertXT 7 10 "x" "T"; assertXT 7 17 "y" "U"]
           1%nat (ident 7 5 "b") (ast.Id (ident 7 17 "y")) (ast.Id (ident 7 20 "U"))).
  - simpl. lia.
  - reflexivity.
  - intros p. unfold validPos. simpl. lia.
  - reflexivity.
  - reflexivity.
Defined.

(** C6 as stated fails: without type-assertion checking,
    [a, b := x.(T), y.(U)] records nothing. *)
Lemma multi_type_assertion_silent_when_disabled :
  asserts quietVisitor = false
  /\ Visit sampleWorld quietVisitor
       (ast.AssignStmt [ast.Id (ident 7 2 "a"); ast.Id (ident 7 5 "b")]
          [assertXT 7 10 "x" "T"; assertXT 7 17 "y" "U"]) = Some quietVisitor.
Proof. split; reflexivity. Qed.

Lemma multi_type_assertion_named_target_witness :
  (forall id X T,
      ast.Name id <> "_" ->
      exists cache line,
        visitAssignPair sampleWorld sampleVisitor (ast.Id id)
          (Some (ast.TypeAssertExpr X (Some T))) =
        Some (set_errors sampleVisitor cache
                (errors sampleVisitor ++
                   [{| Pos := samplePosition (ast.NamePos id); Line := line;
                       FuncName := "" |}])))
  /\ (forall a b x y T U,
         ast.Name a <> "_" -> ast.Name b <> "_" ->
         exists cache line_a line_b,
           Visit sampleWorld sampleVisitor
             (ast.AssignStmt [ast.Id a; ast.Id b]
                [ast.TypeAssertExpr x (Some T); ast.TypeAssertExpr y (Some U)]) =
           Some (set_errors sampleVisitor cache
                   (errors sampleVisitor ++
                      [{| Pos := samplePosition (ast.NamePos a); Line := line_a;
                          FuncName := "" |};
                       {| Pos := samplePosition (ast.NamePos b); Line := line_b;
                          FuncName := "" |}]))).
Proof.
  apply (multi_type_assertion_named_target sampleWorld sampleVisitor).
  - reflexivity.
  - intros p. unfold validPos. simpl. lia.
Defined.

(** ** The patterns *)

Lemma append_nil_l (s : string) : "" +:+ s = s.
Proof. reflexivity. Qed.

Lemma append_cons (a : ascii) (s t : string) : String a s +:+ t = String a (s +:+ t).
Proof. reflexivity. Qed.

Lemma append_nil_r (s : string) : s +:+ "" = s.
Proof. induction s as [|a s IH]; [done|]. by rewrite append_cons, IH. Qed.

Lemma append_assoc (s1 s2 s3 : string) : (s1 +:+ s2) +:+ s3 = s1 +:+ (s2 +:+ s3).
Proof. induction s1 as [|a s1 IH]; [done|]. by rewrite !append_cons, IH. Qed.

Lemma append_eq_nil (x y : string) : x +:+ y = "" -> x = "" /\ y = "".
Proof. destruct x; [auto|]. rewrite append_cons. discriminate. Qed.

Lemma nullable_lang (r : regexp.re) : regexp.nullable r = true <-> regexp.lang r "".
Proof.
  split.
  - induction r; simpl; intros H; try discriminate.
    + constructor.
    + apply andb_true_iff in H as [H1 H2].
      change "" with ("" +:+ ""). constructor; auto.
    + apply orb_true_iff in H as [H|H]; [apply regexp.lang_Alt_l|apply regexp.lang_Alt_r]; auto.
    + constructor.
  - intros H. remember "" as w eqn:Hw. induction H; simpl; try discriminate; auto.
    + apply append_eq_nil in Hw as [-> ->]. rewrite IHlang1, IHlang2; auto.
    + rewrite IHlang; auto.
    + rewrite IHlang; auto. apply orb_true_r.
Qed.

Lemma deriv_sound (a : ascii) (r : regexp.re) (s : string) :
  regexp.lang (regexp.deriv a r) s -> regexp.lang r (String a s).
Proof.
  revert s. induction r; simpl; intros s H.
  - inversion H.
  - inversion H.
  - destruct (Ascii.eqb_spec a a0) as [->|]; inversion H; subst. constructor.
  - destruct (Ascii.eqb_spec a regexp.newline); inversion H; subst. by constructor.
  - inversion H; subst. constructor.
  - destruct (regexp.nullable r1) eqn:Hnull.
    + inversion H as [| | | | | ? ? ? Hl | ? ? ? Hr | |]; subst.
      * inversion Hl; subst. change (String a (x +:+ y)) with (String a x +:+ y).
        constructor; auto.
      * change (String a s) with ("" +:+ String a s).
        constructor; [by apply nullable_lang | auto].
    + inversion H; subst. change (String a (x +:+ y)) with (String a x +:+ y).
      constructor; auto.
  - inversion H; subst; [apply regexp.lang_Alt_l|apply regexp.lang_Alt_r]; auto.
  - inversion H; subst. change (String a (x +:+ y)) with (String a x +:+ y).
    constructor; auto.
Qed.

Lemma deriv_complete (a : ascii) (r : regexp.re) (s : string) :
  regexp.lang r (String a s) -> regexp.lang (regexp.deriv a r) s.
Proof.
  intros H. remember (String a s) as w eqn:Hw. revert a s Hw.
  induction H; intros b t Hw; simpl; try discriminate.
  - injection Hw as <- <-. rewrite Ascii.eqb_refl. constructor.
  - injection Hw as <- <-. apply Ascii.eqb_neq in H. rewrite H. constructor.
  - injection Hw as <- <-. constructor.
  - destruct x as [|c x']; rewrite ?append_nil_l, ?append_cons in Hw.
    + subst y. apply nullable_lang in H. rewrite H.
      apply regexp.lang_Alt_r. by apply IHlang2.
    + injection Hw as -> <-.
      assert (regexp.lang (regexp.Cat (regexp.deriv b r) s) (x' +:+ y)) as Hcat.
      { constructor; auto. }
      destruct (regexp.nullable r); [by apply regexp.lang_Alt_l|done].
  - apply regexp.lang_Alt_l. by apply IHlang.
  - apply regexp.lang_Alt_r. by apply IHlang.
  - destruct x as [|c x']; rewrite ?append_nil_l, ?append_cons in Hw.
    + subst y. by apply (IHlang2 b t).
    + injection Hw as -> <-. constructor; auto.
Qed.

(** The matcher decides the language. *)
Lemma matches_lang (r : regexp.re) (s : string) :
  regexp.matches r s = true <-> regexp.lang r s.
Proof.
  revert r. induction s as [|a s IH]; intros r; simpl.
  - apply nullable_lang.
  - rewrite IH. split; [apply deriv_sound|apply deriv_complete].
Qed.

Lemma lang_Lit (p x : string) : regexp.lang (regexp.Lit p) x <-> x = p.
Proof.
  revert x. induction p as [|a p IH]; intros x; simpl; split; intros H.
  - by inversion H.
  - subst. constructor.
  - inversion H as [| | | | ? ? ? ? Ha Hp | | | |]; subst.
    inversion Ha; subst. apply IH in Hp. by subst.
  - subst. change (String a p) with (String a "" +:+ p).
    constructor; [constructor|by apply IH].
Qed.

Lemma lang_dot_star (m : string) :
  regexp.lang (regexp.Star regexp.AnyCharNotNL) m <-> hasNewline m = false.
Proof.
  split.
  - intros H. remember (regexp.Star regexp.AnyCharNotNL) as r eqn:Hr.
    induction H; try discriminate; [done|].
    injection Hr as ->. inversion H as [| |c Hc| | | | | |]; subst.
    rewrite append_cons, append_nil_l. simpl.
    apply Ascii.eqb_neq in Hc. rewrite Hc. simpl. by apply IHlang2.
  - induction m as [|a m IH]; simpl; intros H; [constructor|].
    apply orb_false_iff in H as [Ha Hm].
    change (String a m) with (String a "" +:+ m).
    constructor; [|by apply IH].
    constructor. by apply Ascii.eqb_neq.
Qed.

(** A pattern [^p r q$] with literal ends. *)
Lemma anchored_literals_spec (p q : string) (r : regexp.re) (s : string) :
  regexp.MatchString
    {| regexp.beginText := true;
       regexp.body := regexp.Cat (regexp.Lit p) (regexp.Cat r (regexp.Lit q));
       regexp.endText := true |} s = true <->
  exists m, regexp.lang r m /\ s = p +:+ m +:+ q.
Proof.
  unfold regexp.MatchString.
  cbn [regexp.beginText regexp.body regexp.endText].
  rewrite matches_lang. split.
  - intros H.
    inversion H as [| | | | ? ? x0 y0 H0 H1 | | | |]; subst.
    inversion H0; subst.
    inversion H1 as [| | | | ? ? x1 y1 H2 H3 | | | |]; subst.
    inversion H3; subst.
    inversion H2 as [| | | | ? ? x2 y2 H4 H5 | | | |]; subst.
    apply lang_Lit in H4. subst x2.
    inversion H5 as [| | | | ? ? x3 y3 H6 H7 | | | |]; subst.
    apply lang_Lit in H7. subst y3.
    exists x3. split; [done|].
    by rewrite append_nil_l, append_nil_r.
  - intros (m & Hm & ->).
    rewrite <- (append_nil_l (p +:+ m +:+ q)).
    constructor; [constructor|].
    rewrite <- (append_nil_r (p +:+ m +:+ q)).
    constructor; [|constructor].
    constructor; [by apply lang_Lit|].
    constructor; [done|by apply lang_Lit].
Qed.

(** The generated-code pattern matches exactly the texts that start with
    ["// Code generated "], end with [" DO NOT EDIT."], and hold no line
    feed in between. *)
Lemma generatedCodeRegexp_spec (s : string) :
  regexp.MatchString generatedCodeRegexp s = true <->
  exists m, hasNewline m = false
            /\ s = "// Code generated " +:+ m +:+ " DO NOT EDIT.".
Proof.
  unfold generatedCodeRegexp. rewrite anchored_literals_spec.
  split; intros (m & Hm & ->); exists m; split; auto; by apply lang_dot_star.
Qed.

Lemma hasNewline_app (s t : string) :
  hasNewline (s +:+ t) = hasNewline s || hasNewline t.
Proof.
  induction s as [|a s IH]; [done|].
  rewrite append_cons. simpl. rewrite IH. by rewrite orb_assoc.
Qed.

Lemma length_append (s t : string) :
  String.length (s +:+ t) = (String.length s + String.length t)%nat.
Proof. induction s as [|a s IH]; [done|]. rewrite append_cons. simpl. by rewrite IH. Qed.

(** ** Generated files *)

Section GeneratedFiles.

Variable W : World.
Variable c : Checker.

Lemma shouldSkipFile_true (file : ast.File) (cg : ast.CommentGroup)
    (comment : ast.Comment) :
  GeneratedFiles (Exclusions_ c) = true ->
  cg ∈ ast.Comments file ->
  comment ∈ ast.List cg ->
  regexp.MatchString generatedCodeRegexp (ast.Text comment) = true ->
  shouldSkipFile c file = true.
Proof.
  intros Hgen Hcg Hcomment Hmatch. unfold shouldSkipFile. rewrite Hgen. simpl.
  apply existsb_exists. exists cg. split; [by apply list_elem_of_In|].
  apply existsb_exists. exists comment. split; [by apply list_elem_of_In|done].
Qed.

(** C7: with generated-file exclusion enabled, a file holding the comment
    [// Code generated by X. DO NOT EDIT.] is skipped and the visitor is
    left as it was; a file whose only comment is [// Code generated by X.],
    where that text does not itself end in [ DO NOT EDIT.], is not skipped:
    it is walked, and an unchecked call inside it is reported. *)
Theorem generated_marker (v : visitor) (X : string) :
  GeneratedFiles (Exclusions_ c) = true ->
  hasNewline X = false ->
  ~ (exists m, "by " +:+ X +:+ "." = m +:+ " DO NOT EDIT.") ->
  (forall file cg comment,
      cg ∈ ast.Comments file ->
      comment ∈ ast.List cg ->
      ast.Text comment = "// Code generated by " +:+ X +:+ ". DO NOT EDIT." ->
      shouldSkipFile c file = true /\ checkFile W c v file = Some v)
  /\ (forall file slash,
         ast.Comments file =
           [{| ast.List := [{| ast.Slash := slash;
                               ast.Text := "// Code generated by " +:+ X +:+ "." |}] |}] ->
         shouldSkipFile c file = false
         /\ checkFile W c v file = WalkFile W v file
         /\ forall pos f call,
              ast.Decls file = [ast.Other pos [ast.ExprStmt (ast.Call call)]] ->
              ast.Fun call = ast.Id f -> ast.Args call = [] ->
              ignoreCall W v call = false ->
              callReturnsError W v call = true ->
              validPos v (ast.Lparen call) ->
              exists cache line,
                checkFile W c v file =
                Some (set_errors v cache
                        (errors v ++
                           [{| Pos := packages.Fset_Position (pkg v) (ast.Lparen call);
                               Line := line; FuncName := fullName v call |}]))).
Proof.
  intros Hgen HX Hplain. split.
  - intros file cg comment Hcg Hcomment Htext.
    assert (shouldSkipFile c file = true) as Hskip.
    { apply (shouldSkipFile_true file cg comment); auto.
      rewrite Htext. apply generatedCodeRegexp_spec.
      exists ("by " +:+ X +:+ "."). split.
      - rewrite !hasNewline_app, HX. reflexivity.
      - rewrite !append_assoc. reflexivity. }
    split; [done|]. unfold checkFile. by rewrite Hskip.
  - intros file slash Hcomments.
    assert (shouldSkipFile c file = false) as Hskip.
    { unfold shouldSkipFile. rewrite Hgen, Hcomments. simpl.
      rewrite !orb_false_r. apply not_true_is_false. intros Hmatch.
      apply generatedCodeRegexp_spec in Hmatch as (m & _ & Hm).
      apply Hplain. exists m.
      change ("// Code generated by " +:+ X +:+ ".")
        with ("// Code generated " +:+ "by " +:+ X +:+ ".") in Hm.
      by apply (inj (String.append "// Code generated ")) in Hm. }
    assert (checkFile W c v file = WalkFile W v file) as Hwalk.
    { unfold checkFile. by rewrite Hskip. }
    split; [done|]. split; [done|].
    intros pos f call Hdecls Hfun Hargs Hign Hret Hvalid.
    destruct (addErrorAtPosition_valid W v (ast.Lparen call) (Some call) Hvalid)
      as (cache & line & Hadd).
    exists cache, line. rewrite Hwalk. unfold WalkFile. rewrite Hdecls.
    destruct call as [fn lparen args]. simpl in Hfun, Hargs. subst fn args.
    simpl. unfold visitCallStmt. rewrite Hign, Hret. simpl.
    simpl in Hadd. rewrite Hadd. reflexivity.
Qed.

End GeneratedFiles.
